(** * Geo-Gemmer: the in-memory hidden-gem repository

    A shallow embedding of [src/repositories/gem_repository.py] and the
    properties the specification states about it.

    The Python code keeps [HiddenGem] objects in a dict keyed by a random
    integer and mutates them in place.  The embedding keeps that shape:
    a world holds the object heap (one slot per allocated [HiddenGem]) and
    the repository's [_db], a finite map from identifiers to references.
    Every method is a computation in a state-and-exception monad, so that
    the world after a raised exception can be inspected too. *)

From Stdlib Require Import ZArith String List Lia.
From Stdlib Require Import Floats.PrimFloat.
From stdpp Require Import base option list gmap fin_sets strings pretty.

Local Open Scope Z_scope.
Local Open Scope string_scope.

(** ** Data model *)

Module Model.

(** A Python [float]: the repository stores and returns these without any
    arithmetic on them. *)
Definition pyfloat : Type := PrimFloat.float.

(** Modelled from the spec: the class [Reviews] of [models/hidden_gem.py] is
    not part of the sources at hand.  The specification calls a review
    "opaque to the store", which only holds and returns it; a review is
    represented by the handle of its object. *)
Definition Reviews : Type := positive.

(** Modelled from the spec: the class [HiddenGem] of [models/hidden_gem.py]
    is not part of the sources at hand.  Its attributes are the ones the
    repository reads and writes, in the order of the constructor call
    [HiddenGem(name, new_id, latitude, longitude, gem_type, times_visited,
    user_created, website_link, accessibility, gem_images, reviews)]; the
    identifier attribute is called [gem_id] here.  Instances are taken to be
    truthy like any plain Python object (no [__bool__] or [__len__]). *)
Record HiddenGem : Type := mkHiddenGem {
  name : string;
  gem_id : Z;
  latitude : pyfloat;
  longitude : pyfloat;
  gem_type : string;
  times_visited : Z;
  user_created : string;
  website_link : string;
  accessibility : list bool;
  gem_images : list string;
  reviews : list Reviews
}.

(** A reference to a [HiddenGem] object: its slot in the heap. *)
Definition ref : Type := nat.

(** A raised Python exception: its class and its message. *)
Record exn : Type := mkExn { exc_type : string; exc_msg : string }.

Definition ValueError (msg : string) : exn := mkExn "ValueError" msg.
Definition AttributeError (msg : string) : exn := mkExn "AttributeError" msg.
Definition UnboundLocalError (msg : string) : exn :=
  mkExn "UnboundLocalError" msg.
Definition NameError (msg : string) : exn := mkExn "NameError" msg.

(** The direct base class of the built-in exception classes used here. *)
Definition exc_base (cls : string) : option string :=
  if String.eqb cls "UnboundLocalError" then Some "NameError"
  else if String.eqb cls "NameError" then Some "Exception"
  else if String.eqb cls "ValueError" then Some "Exception"
  else if String.eqb cls "AttributeError" then Some "Exception"
  else if String.eqb cls "Exception" then Some "BaseException"
  else None.

(** [issubclass cls target], walking at most [depth] base classes. *)
Fixpoint issubclass_upto (depth : nat) (cls target : string) : bool :=
  String.eqb cls target ||
  match depth with
  | O => false
  | S d =>
      match exc_base cls with
      | Some b => issubclass_upto d b target
      | None => false
      end
  end.

Definition issubclass : string -> string -> bool := issubclass_upto 4.

(** What [except target:] catches. *)
Definition isinstance (e : exn) (target : string) : bool :=
  issubclass (exc_type e) target.

(** The world the methods run in. *)
Record World : Type := mkWorld {
  heap : list HiddenGem;   (* every [HiddenGem] object allocated so far *)
  _db : gmap Z ref         (* [self._db] *)
}.

(** [GemRepository.__init__]: [self._db = {}]. *)
Definition init : World := mkWorld [] ∅.

End Model.
Export Model.

(** ** The state-and-exception monad of the methods *)

Module Py.

Inductive result (A : Type) : Type :=
| Return (a : A)
| Raise (e : exn).
Arguments Return {A} a.
Arguments Raise {A} e.

Definition M (A : Type) : Type := World -> result A * World.

Definition ret {A} (a : A) : M A := fun w => (Return a, w).
Definition raise {A} (e : exn) : M A := fun w => (Raise e, w).
Definition bind {A B} (m : M A) (k : A -> M B) : M B :=
  fun w =>
    match m w with
    | (Return a, w') => k a w'
    | (Raise e, w') => (Raise e, w')
    end.

Declare Scope py_scope.
Delimit Scope py_scope with py.
Notation "x <- m ;; k" := (bind m (fun x => k))
  (at level 100, m at next level, right associativity) : py_scope.
Notation "m ;;; k" := (bind m (fun _ => k))
  (at level 100, right associativity) : py_scope.

(** [self._db.get(key)]: the reference stored under [key], or [None]. *)
Definition db_get (key : Z) : M (option ref) :=
  fun w => (Return (_db w !! key), w).

(** [self._db[key] = obj]. *)
Definition db_setitem (key : Z) (obj : ref) : M unit :=
  fun w => (Return tt, mkWorld (heap w) (<[key := obj]> (_db w))).

(** [self._db = d]. *)
Definition db_assign (d : gmap Z ref) : M unit :=
  fun w => (Return tt, mkWorld (heap w) d).

(** [{**self._db}]: a new dict with the same keys and references. *)
Definition db_clone : M (gmap Z ref) :=
  fun w => (Return (_db w), w).

(** Calling the constructor: a new object in a new heap slot. *)
Definition new (g : HiddenGem) : M ref :=
  fun w => (Return (length (heap w)), mkWorld (heap w ++ [g]) (_db w)).

(** The fault of following a reference that is outside the heap.  It is not
    a Python exception: Python has no such references, and no world the
    repository can reach has one ([wf_world] below). *)
Definition dangling : exn := mkExn "<dangling reference>" "".

(** [obj.attr] where [obj] is the result of [dict.get]: on [None] the
    attribute access raises [AttributeError]. *)
Definition getattr {A} (obj : option ref) (attr : string)
    (proj : HiddenGem -> A) : M A :=
  match obj with
  | None =>
      raise (AttributeError
               ("'NoneType' object has no attribute '" ++ attr ++ "'"))
  | Some r =>
      fun w =>
        match heap w !! r with
        | Some g => (Return (proj g), w)
        | None => (Raise dangling, w)
        end
  end.

(** [obj.attr = v].  On a [HiddenGem] object the object is changed in place,
    so every holder of the reference sees the new value; on [None] the
    assignment raises [AttributeError]. *)
Definition setattr (obj : option ref) (attr : string)
    (upd : HiddenGem -> HiddenGem) : M unit :=
  match obj with
  | None =>
      raise (AttributeError
               ("'NoneType' object has no attribute '" ++ attr ++ "'"))
  | Some r =>
      fun w =>
        match heap w !! r with
        | Some g => (Return tt, mkWorld (<[r := upd g]> (heap w)) (_db w))
        | None => (Raise dangling, w)
        end
  end.

(** Truth value of what [dict.get] returned: [None] is false, a
    [HiddenGem] object is true. *)
Definition truthy (obj : option ref) : bool :=
  match obj with
  | None => false
  | Some _ => true
  end.

(** [str(n)] for an [int], as the f-strings format it. *)
Definition str (n : Z) : string := pretty n.

(** [random.randint(a, b)]: an integer [N] with [a <= N <= b].  The
    generator's state is outside the program; [entropy] stands for what it
    supplies at this call, and every value of the range is the image of
    some [entropy]. *)
Definition randint (a b entropy : Z) : Z := a + entropy mod (b - a + 1).

End Py.
Export Py.
Local Open Scope py_scope.

(** ** Attribute assignment on a [HiddenGem] *)

Module Attr.

Definition set_name (v : string) (g : HiddenGem) : HiddenGem :=
  mkHiddenGem v (gem_id g) (latitude g) (longitude g) (gem_type g)
    (times_visited g) (user_created g) (website_link g) (accessibility g) (gem_images g) (reviews g).

Definition set_latitude (v : pyfloat) (g : HiddenGem) : HiddenGem :=
  mkHiddenGem (name g) (gem_id g) v (longitude g) (gem_type g)
    (times_visited g) (user_created g) (website_link g) (accessibility g) (gem_images g) (reviews g).

Definition set_longitude (v : pyfloat) (g : HiddenGem) : HiddenGem :=
  mkHiddenGem (name g) (gem_id g) (latitude g) v (gem_type g)
    (times_visited g) (user_created g) (website_link g) (accessibility g) (gem_images g) (reviews g).

Definition set_gem_type (v : string) (g : HiddenGem) : HiddenGem :=
  mkHiddenGem (name g) (gem_id g) (latitude g) (longitude g) v
    (times_visited g) (user_created g) (website_link g) (accessibility g) (gem_images g) (reviews g).

Definition set_times_visited (v : Z) (g : HiddenGem) : HiddenGem :=
  mkHiddenGem (name g) (gem_id g) (latitude g) (longitude g) (gem_type g)
    v (user_created g) (website_link g) (accessibility g) (gem_images g) (reviews g).

Definition set_user_created (v : string) (g : HiddenGem) : HiddenGem :=
  mkHiddenGem (name g) (gem_id g) (latitude g) (longitude g) (gem_type g)
    (times_visited g) v (website_link g) (accessibility g) (gem_images g) (reviews g).

Definition set_website_link (v : string) (g : HiddenGem) : HiddenGem :=
  mkHiddenGem (name g) (gem_id g) (latitude g) (longitude g) (gem_type g)
    (times_visited g) (user_created g) v (accessibility g) (gem_images g) (reviews g).

Definition set_accessibility (v : list bool) (g : HiddenGem) : HiddenGem :=
  mkHiddenGem (name g) (gem_id g) (latitude g) (longitude g) (gem_type g)
    (times_visited g) (user_created g) (website_link g) v (gem_images g) (reviews g).

Definition set_gem_images (v : list string) (g : HiddenGem) : HiddenGem :=
  mkHiddenGem (name g) (gem_id g) (latitude g) (longitude g) (gem_type g)
    (times_visited g) (user_created g) (website_link g) (accessibility g) v (reviews g).

Definition set_reviews (v : list Reviews) (g : HiddenGem) : HiddenGem :=
  mkHiddenGem (name g) (gem_id g) (latitude g) (longitude g) (gem_type g)
    (times_visited g) (user_created g) (website_link g) (accessibility g) (gem_images g) v.

End Attr.
Export Attr.

(** ** The methods of [GemRepository] *)

Module GemRepository.

Definition get_all_hidden_gems : M (gmap Z ref) :=
  db_clone.

Definition get_hidden_gem_by_id (hidden_gem_id : Z) : M (option ref) :=
  db_get hidden_gem_id.

(** [entropy] is what the random generator supplies to this call. *)
Definition create_hidden_gem (entropy : Z)
    (name : string) (latitude longitude : pyfloat) (gem_type : string)
    (times_visited : Z) (user_created website_link : string)
    (accessibility : list bool) (gem_images : list string)
    (reviews : list Reviews) : M ref :=
  let new_id := randint 0 100000 entropy in
  hidden_gem <- new (mkHiddenGem name new_id latitude longitude gem_type
                       times_visited user_created website_link
                       accessibility gem_images reviews) ;;
  db_setitem new_id hidden_gem ;;;
  ret hidden_gem.

Definition not_found (hidden_gem_id : Z) : exn :=
  ValueError ("hidden gem with id " ++ str hidden_gem_id ++ " not found").

Definition get_name (hidden_gem_id : Z) : M (string) :=
  obj <- db_get hidden_gem_id ;;
  getattr obj "name" name.

Definition update_name (hidden_gem_id : Z) (name : string) : M (option ref) :=
  hidden_gem <- db_get hidden_gem_id ;;
  if negb (truthy hidden_gem) then raise (not_found hidden_gem_id)
  else
    setattr hidden_gem "name" (set_name name) ;;;
    ret hidden_gem.

Definition get_cordinates (hidden_gem_id : Z) : M (pyfloat * pyfloat) :=
  obj1 <- db_get hidden_gem_id ;;
  lat <- getattr obj1 "latitude" latitude ;;
  obj2 <- db_get hidden_gem_id ;;
  lon <- getattr obj2 "longitude" longitude ;;
  ret (lat, lon).

Definition update_cordinates (hidden_gem_id : Z)
    (latitude longitude : pyfloat) : M (option ref) :=
  hidden_gem <- db_get hidden_gem_id ;;
  if negb (truthy hidden_gem) then raise (not_found hidden_gem_id)
  else
    setattr hidden_gem "latitude" (set_latitude latitude) ;;;
    setattr hidden_gem "longitude" (set_longitude longitude) ;;;
    ret hidden_gem.

Definition get_gem_type (hidden_gem_id : Z) : M (string) :=
  obj <- db_get hidden_gem_id ;;
  getattr obj "gem_type" gem_type.

Definition update_gem_type (hidden_gem_id : Z) (gem_type : string) : M (option ref) :=
  hidden_gem <- db_get hidden_gem_id ;;
  if negb (truthy hidden_gem) then raise (not_found hidden_gem_id)
  else
    setattr hidden_gem "gem_type" (set_gem_type gem_type) ;;;
    ret hidden_gem.

Definition get_times_visited (hidden_gem_id : Z) : M (Z) :=
  obj <- db_get hidden_gem_id ;;
  getattr obj "times_visited" times_visited.

Definition update_times_visited (hidden_gem_id : Z) (times_visited : Z) : M (option ref) :=
  hidden_gem <- db_get hidden_gem_id ;;
  if negb (truthy hidden_gem) then raise (not_found hidden_gem_id)
  else
    setattr hidden_gem "times_visited" (set_times_visited times_visited) ;;;
    ret hidden_gem.

Definition get_user_created (hidden_gem_id : Z) : M (string) :=
  obj <- db_get hidden_gem_id ;;
  getattr obj "user_created" user_created.

Definition update_user_created (hidden_gem_id : Z) (user_created : string) : M (option ref) :=
  hidden_gem <- db_get hidden_gem_id ;;
  if negb (truthy hidden_gem) then raise (not_found hidden_gem_id)
  else
    setattr hidden_gem "user_created" (set_user_created user_created) ;;;
    ret hidden_gem.

Definition get_website_link (hidden_gem_id : Z) : M (string) :=
  obj <- db_get hidden_gem_id ;;
  getattr obj "website_link" website_link.

Definition update_website_link (hidden_gem_id : Z) (website_link : string) : M (option ref) :=
  hidden_gem <- db_get hidden_gem_id ;;
  if negb (truthy hidden_gem) then raise (not_found hidden_gem_id)
  else
    setattr hidden_gem "website_link" (set_website_link website_link) ;;;
    ret hidden_gem.

Definition get_accessibility (hidden_gem_id : Z) : M (list bool) :=
  obj <- db_get hidden_gem_id ;;
  getattr obj "accessibility" accessibility.

Definition update_accessibility (hidden_gem_id : Z) (accessibility : list bool) : M (option ref) :=
  hidden_gem <- db_get hidden_gem_id ;;
  if negb (truthy hidden_gem) then raise (not_found hidden_gem_id)
  else
    setattr hidden_gem "accessibility" (set_accessibility accessibility) ;;;
    ret hidden_gem.

Definition get_gem_images (hidden_gem_id : Z) : M (list string) :=
  obj <- db_get hidden_gem_id ;;
  getattr obj "gem_images" gem_images.

Definition update_gem_images (hidden_gem_id : Z) (gem_images : list string) : M (option ref) :=
  hidden_gem <- db_get hidden_gem_id ;;
  if negb (truthy hidden_gem) then raise (not_found hidden_gem_id)
  else
    setattr hidden_gem "gem_images" (set_gem_images gem_images) ;;;
    ret hidden_gem.

Definition get_reviews (hidden_gem_id : Z) : M (list Reviews) :=
  obj <- db_get hidden_gem_id ;;
  getattr obj "reviews" reviews.

Definition update_reviews (hidden_gem_id : Z) (reviews : list Reviews) : M (option ref) :=
  hidden_gem <- db_get hidden_gem_id ;;
  if negb (truthy hidden_gem) then raise (not_found hidden_gem_id)
  else
    setattr hidden_gem "reviews" (set_reviews reviews) ;;;
    ret hidden_gem.

Definition clear_db : M unit :=
  db_assign ∅.

End GemRepository.
Export GemRepository.

(** ** The accessor families, one field at a time *)

Module Fields.

(** The nine fields that have a getter and an updater. *)
Inductive field : Type :=
| FName | FCordinates | FGemType | FTimesVisited | FUserCreated
| FWebsiteLink | FAccessibility | FGemImages | FReviews.

(** A value of one of the nine fields; the coordinates are read and
    written as a pair. *)
Inductive field_value : Type :=
| VName (v : string)
| VCordinates (lat lon : pyfloat)
| VGemType (v : string)
| VTimesVisited (v : Z)
| VUserCreated (v : string)
| VWebsiteLink (v : string)
| VAccessibility (v : list bool)
| VGemImages (v : list string)
| VReviews (v : list Reviews).

Definition field_of (v : field_value) : field :=
  match v with
  | VName _ => FName
  | VCordinates _ _ => FCordinates
  | VGemType _ => FGemType
  | VTimesVisited _ => FTimesVisited
  | VUserCreated _ => FUserCreated
  | VWebsiteLink _ => FWebsiteLink
  | VAccessibility _ => FAccessibility
  | VGemImages _ => FGemImages
  | VReviews _ => FReviews
  end.

(** [get_<field>(hidden_gem_id)]. *)
Definition get_field (f : field) (hidden_gem_id : Z) : M field_value :=
  match f with
  | FName => v <- get_name hidden_gem_id ;; ret (VName v)
  | FCordinates =>
      v <- get_cordinates hidden_gem_id ;; ret (VCordinates (fst v) (snd v))
  | FGemType => v <- get_gem_type hidden_gem_id ;; ret (VGemType v)
  | FTimesVisited =>
      v <- get_times_visited hidden_gem_id ;; ret (VTimesVisited v)
  | FUserCreated =>
      v <- get_user_created hidden_gem_id ;; ret (VUserCreated v)
  | FWebsiteLink =>
      v <- get_website_link hidden_gem_id ;; ret (VWebsiteLink v)
  | FAccessibility =>
      v <- get_accessibility hidden_gem_id ;; ret (VAccessibility v)
  | FGemImages => v <- get_gem_images hidden_gem_id ;; ret (VGemImages v)
  | FReviews => v <- get_reviews hidden_gem_id ;; ret (VReviews v)
  end.

(** [update_<field>(hidden_gem_id, v)]. *)
Definition update_field (hidden_gem_id : Z) (v : field_value)
    : M (option ref) :=
  match v with
  | VName v => update_name hidden_gem_id v
  | VCordinates lat lon => update_cordinates hidden_gem_id lat lon
  | VGemType v => update_gem_type hidden_gem_id v
  | VTimesVisited v => update_times_visited hidden_gem_id v
  | VUserCreated v => update_user_created hidden_gem_id v
  | VWebsiteLink v => update_website_link hidden_gem_id v
  | VAccessibility v => update_accessibility hidden_gem_id v
  | VGemImages v => update_gem_images hidden_gem_id v
  | VReviews v => update_reviews hidden_gem_id v
  end.

(** The field [f] of a record, and a record after [v] has been assigned. *)
Definition read_field (f : field) (g : HiddenGem) : field_value :=
  match f with
  | FName => VName (name g)
  | FCordinates => VCordinates (latitude g) (longitude g)
  | FGemType => VGemType (gem_type g)
  | FTimesVisited => VTimesVisited (times_visited g)
  | FUserCreated => VUserCreated (user_created g)
  | FWebsiteLink => VWebsiteLink (website_link g)
  | FAccessibility => VAccessibility (accessibility g)
  | FGemImages => VGemImages (gem_images g)
  | FReviews => VReviews (reviews g)
  end.

Definition write_field (v : field_value) (g : HiddenGem) : HiddenGem :=
  match v with
  | VName v => set_name v g
  | VCordinates lat lon => set_longitude lon (set_latitude lat g)
  | VGemType v => set_gem_type v g
  | VTimesVisited v => set_times_visited v g
  | VUserCreated v => set_user_created v g
  | VWebsiteLink v => set_website_link v g
  | VAccessibility v => set_accessibility v g
  | VGemImages v => set_gem_images v g
  | VReviews v => set_reviews v g
  end.

(** The attribute whose access fails first when a getter meets [None]. *)
Definition first_attr (f : field) : string :=
  match f with
  | FName => "name"
  | FCordinates => "latitude"
  | FGemType => "gem_type"
  | FTimesVisited => "times_visited"
  | FUserCreated => "user_created"
  | FWebsiteLink => "website_link"
  | FAccessibility => "accessibility"
  | FGemImages => "gem_images"
  | FReviews => "reviews"
  end.

End Fields.
Export Fields.

(** ** Callers: sequences of method calls on one repository *)

Module Client.

Inductive call : Type :=
| CreateHiddenGem (entropy : Z)
    (name : string) (latitude longitude : pyfloat) (gem_type : string)
    (times_visited : Z) (user_created website_link : string)
    (accessibility : list bool) (gem_images : list string)
    (reviews : list Reviews)
| GetAllHiddenGems
| GetHiddenGemById (hidden_gem_id : Z)
| GetField (f : field) (hidden_gem_id : Z)
| UpdateField (hidden_gem_id : Z) (v : field_value)
| ClearDb.

(** What a call hands back to its caller. *)
Inductive value : Type :=
| PyNone
| PyGem (obj : ref)
| PyGemOrNone (obj : option ref)
| PyDict (d : gmap Z ref)
| PyField (v : field_value).

Definition exec (c : call) : M value :=
  match c with
  | CreateHiddenGem e n la lo ty tv uc wl ac im rv =>
      r <- create_hidden_gem e n la lo ty tv uc wl ac im rv ;; ret (PyGem r)
  | GetAllHiddenGems => d <- get_all_hidden_gems ;; ret (PyDict d)
  | GetHiddenGemById k => o <- get_hidden_gem_by_id k ;; ret (PyGemOrNone o)
  | GetField f k => v <- get_field f k ;; ret (PyField v)
  | UpdateField k v => o <- update_field k v ;; ret (PyGemOrNone o)
  | ClearDb => clear_db ;;; ret PyNone
  end.

(** The caller goes on after an exception: each call's outcome is recorded
    and the next call runs in the world the previous one left. *)
Fixpoint run (cs : list call) (w : World) : list (result value) * World :=
  match cs with
  | [] => ([], w)
  | c :: cs' =>
      let (out, w') := exec c w in
      let (outs, w'') := run cs' w' in
      (out :: outs, w'')
  end.

(** The worlds a freshly constructed repository can be brought to. *)
Definition reachable (w : World) : Prop :=
  exists cs : list call, snd (run cs init) = w.

Definition is_create (c : call) : bool :=
  match c with
  | CreateHiddenGem _ _ _ _ _ _ _ _ _ _ _ => true
  | _ => false
  end.

(** The identifier the random generator hands to a create call. *)
Definition draw (c : call) : option Z :=
  match c with
  | CreateHiddenGem e _ _ _ _ _ _ _ _ _ _ => Some (randint 0 100000 e)
  | _ => None
  end.

Definition draws (cs : list call) : list Z := omap draw cs.

(** The record stored under an identifier, if any. *)
Definition stored (w : World) (hidden_gem_id : Z) : option HiddenGem :=
  r ← _db w !! hidden_gem_id; heap w !! r.

(** The identifier of the record a create call returned. *)
Definition issued_id (out : result value) (w' : World) : option Z :=
  match out with
  | Return (PyGem r) => gem_id <$> heap w' !! r
  | _ => None
  end.

(** Every create call of [cs], run from [w], returned an identifier that
    was not a key of the store when the call was made. *)
Fixpoint fresh_ids (cs : list call) (w : World) : bool :=
  match cs with
  | [] => true
  | c :: cs' =>
      let (out, w') := exec c w in
      (if is_create c then
         match issued_id out w' with
         | Some k => bool_decide (_db w !! k = None)
         | None => false
         end
       else true)
      && fresh_ids cs' w'
  end.

End Client.
Export Client.

(** ** The module-level accessor [get_gem_repository] *)

Module Entry.

(** What a name of the module or of the function body can be bound to. *)
Inductive binding : Type :=
| BNone                       (* [None] *)
| BClass                      (* the class object [GemRepository] *)
| BInstance (w : World)       (* a [GemRepository] instance *)
| BOther (tag : positive).    (* any other object *)

Definition namespace : Type := gmap string binding.

(** The module's globals once the module body has run: the only
    assignment at module level is [_gemr_repo = None]. *)
Definition module_globals : namespace := {[ "_gemr_repo" := BNone ]}.

(** Names the body of [get_gem_repository] binds (the [class] statement and
    the assignment), and the names of its [global] statement. *)
Definition bound_in_body : list string := ["GemRepository"; "_user_repo"].
Definition declared_global : list string := ["_gem_repo"].

(** Python fixes the scope of a name when the function is compiled: a name
    bound anywhere in the body and not declared [global] is a local of the
    function in the whole body. *)
Definition is_local (x : string) : bool :=
  bool_decide (x ∈ bound_in_body) && negb (bool_decide (x ∈ declared_global)).

(** Reading a name inside the function.  The messages are those of
    CPython 3.11 and later. *)
Definition load (globals locals : namespace) (x : string) : result binding :=
  if is_local x then
    match locals !! x with
    | Some v => Return v
    | None =>
        Raise (UnboundLocalError
                 ("cannot access local variable '" ++ x
                  ++ "' where it is not associated with a value"))
    end
  else
    match globals !! x with
    | Some v => Return v
    | None => Raise (NameError ("name '" ++ x ++ "' is not defined"))
    end.

(** Binding a name inside the function. *)
Definition store (globals locals : namespace) (x : string) (v : binding)
    : namespace * namespace :=
  if is_local x then (globals, <[x := v]> locals)
  else (<[x := v]> globals, locals).

Definition is_None (v : binding) : bool :=
  match v with
  | BNone => true
  | _ => false
  end.

(** One call of [get_gem_repository] with the module globals [globals]:
    the outcome and the module globals afterwards. *)
Definition get_gem_repository (globals : namespace)
    : result binding * namespace :=
  (* class GemRepository: ... *)
  let (globals, locals) := store globals ∅ "GemRepository" BClass in
  (* if _user_repo is None: *)
  match load globals locals "_user_repo" with
  | Raise e => (Raise e, globals)
  | Return v =>
      if is_None v then
        (* _user_repo = GemRepository() *)
        match load globals locals "GemRepository" with
        | Raise e => (Raise e, globals)
        | Return _ =>
            let (globals, locals) :=
              store globals locals "_user_repo" (BInstance init) in
            (* return _user_repo *)
            (load globals locals "_user_repo", globals)
        end
      else
        (* return _user_repo *)
        (load globals locals "_user_repo", globals)
  end.

End Entry.

(** ** Invariants and the vocabulary of the properties *)

Module Inv.

(** Every reference of the store points to an object of the heap, and that
    object carries the identifier it is stored under. *)
Definition wf_world (w : World) : Prop :=
  forall (k : Z) (r : ref),
    _db w !! k = Some r ->
    exists g : HiddenGem, heap w !! r = Some g /\ gem_id g = k.

(** Every key of the store is in the range the identifiers are drawn
    from. *)
Definition ids_in_range (w : World) : Prop :=
  forall k : Z, is_Some (_db w !! k) -> 0 <= k <= 100000.

(** The calls that take away whatever is stored under [k]: [clear_db], and
    a create call whose draw is [k]. *)
Definition overwrites (k : Z) (c : call) : bool :=
  match c with
  | ClearDb => true
  | _ => bool_decide (draw c = Some k)
  end.

(** No call of [cs] takes away what is stored under [k]. *)
Definition kept (k : Z) (cs : list call) : bool :=
  forallb (fun c => negb (overwrites k c)) cs.

Definition is_clear (c : call) : bool :=
  match c with
  | ClearDb => true
  | _ => false
  end.

(** The [i]-th call of [cs] was a create call that returned the record [r]
    under the identifier [k]; [outs] are the outcomes of [cs]. *)
Definition created_at (cs : list call) (outs : list (result value))
    (i : nat) (k : Z) (r : ref) : Prop :=
  exists c : call,
    cs !! i = Some c /\ draw c = Some k /\
    outs !! i = Some (Return (PyGem r)).

(** The number of entries of the mapping [get_all_hidden_gems] returns. *)
Definition count_all (w : World) : option nat :=
  match fst (get_all_hidden_gems w) with
  | Return d => Some (size d)
  | Raise _ => None
  end.

End Inv.
Export Inv.

(** ** The scenario of the specification *)

Module Scenario.

(** [create("Old Mill", 51.5, -0.1, "historic", 0, "alice", "",
    [true, false], [], [])], with [entropy] supplied by the random
    generator.  The longitude is the binary64 value of [-0.1]. *)
Definition old_mill (entropy : Z) : call :=
  CreateHiddenGem entropy "Old Mill" 51.5%float
    (-0x1.999999999999ap-4)%float "historic" 0 "alice" ""
    [true; false] [] [].

(** The record that call constructs when its draw is [k]. *)
Definition old_mill_gem (k : Z) : HiddenGem :=
  mkHiddenGem "Old Mill" k 51.5%float (-0x1.999999999999ap-4)%float
    "historic" 0 "alice" "" [true; false] [] [].

(** The world after that one call, made on a new repository with the
    draw 7. *)
Definition one_gem : World := snd (run [old_mill 7] init).

End Scenario.
Export Scenario.

(** ** Kinds of calls *)

Module Kinds.

(** The calls of the reading methods: [get_all_hidden_gems],
    [get_hidden_gem_by_id] and the nine getters. *)
Definition is_read (c : call) : bool :=
  match c with
  | GetAllHiddenGems | GetHiddenGemById _ | GetField _ _ => true
  | _ => false
  end.

End Kinds.
Export Kinds.

(** * Properties *)

(** ** What one method call does to the world *)

Section Steps.

Implicit Types (w : World) (k : Z) (r : ref) (g : HiddenGem).
Implicit Types (f : field) (v : field_value) (c : call).

Ltac unfold_methods :=
  unfold update_field, get_field,
    update_name, update_cordinates, update_gem_type, update_times_visited,
    update_user_created, update_website_link, update_accessibility,
    update_gem_images, update_reviews,
    get_name, get_cordinates, get_gem_type, get_times_visited,
    get_user_created, get_website_link, get_accessibility, get_gem_images,
    get_reviews, get_hidden_gem_by_id, get_all_hidden_gems, clear_db,
    create_hidden_gem,
    bind, ret, raise, db_get, db_setitem, db_assign, db_clone, new,
    setattr, getattr, truthy.

Lemma get_field_absent f k w :
  _db w !! k = None ->
  get_field f k w =
  (Raise (AttributeError
            ("'NoneType' object has no attribute '" ++ first_attr f ++ "'")),
   w).
Proof.
  intros Hk. destruct f; unfold_methods; rewrite Hk; reflexivity.
Qed.

Lemma get_field_present f k w r g :
  _db w !! k = Some r -> heap w !! r = Some g ->
  get_field f k w = (Return (read_field f g), w).
Proof.
  intros Hk Hr. destruct f; unfold_methods; rewrite ?Hk, ?Hr; simpl;
    rewrite ?Hk, ?Hr; reflexivity.
Qed.

Lemma get_field_world f k w : snd (get_field f k w) = w.
Proof.
  destruct (_db w !! k) as [r|] eqn:Hk.
  - destruct (heap w !! r) as [g|] eqn:Hr.
    + by rewrite (get_field_present f k w r g).
    + destruct f; unfold_methods; rewrite ?Hk, ?Hr; reflexivity.
  - by rewrite get_field_absent.
Qed.

Lemma update_field_absent k v w :
  _db w !! k = None ->
  update_field k v w = (Raise (not_found k), w).
Proof.
  intros Hk. destruct v; unfold_methods; rewrite Hk; reflexivity.
Qed.

Lemma update_field_present k v w r g :
  _db w !! k = Some r -> heap w !! r = Some g ->
  update_field k v w =
  (Return (Some r), mkWorld (<[r := write_field v g]> (heap w)) (_db w)).
Proof.
  intros Hk Hr.
  assert (Hlt : (r < length (heap w))%nat) by (by eapply lookup_lt_Some).
  destruct v; unfold_methods; rewrite Hk; simpl; rewrite Hr; simpl;
    try reflexivity.
  rewrite list_lookup_insert_eq by done.
  by rewrite list_insert_insert_eq.
Qed.

Lemma update_field_dangling k v w r :
  _db w !! k = Some r -> heap w !! r = None ->
  update_field k v w = (Raise dangling, w).
Proof.
  intros Hk Hr. destruct v; unfold_methods; rewrite Hk; simpl; rewrite Hr;
    reflexivity.
Qed.

Lemma update_field_db k v w : _db (snd (update_field k v w)) = _db w.
Proof.
  destruct (_db w !! k) as [r|] eqn:Hk.
  - destruct (heap w !! r) as [g|] eqn:Hr.
    + by rewrite (update_field_present k v w r g).
    + by rewrite (update_field_dangling k v w r).
  - by rewrite update_field_absent.
Qed.

End Steps.

(** ** Calls and the store *)

Local Open Scope list_scope.

Section Calls.

Implicit Types (w : World) (k : Z) (r : ref) (g : HiddenGem).
Implicit Types (c : call) (cs : list call).

Lemma randint_range a b entropy :
  a <= b -> a <= randint a b entropy <= b.
Proof.
  intros Hab. unfold randint.
  pose proof (Z.mod_pos_bound entropy (b - a + 1)). lia.
Qed.

Lemma randint_onto a b n : a <= n <= b -> randint a b (n - a) = n.
Proof.
  intros Hn. unfold randint. rewrite Z.mod_small by lia. lia.
Qed.

Lemma exec_get_field_world f k w : snd (exec (GetField f k) w) = w.
Proof.
  unfold exec, bind, ret.
  pose proof (get_field_world f k w) as Hw.
  destruct (get_field f k w) as [[v|e] w']; simpl in *; congruence.
Qed.

Lemma exec_update_field_db k v w :
  _db (snd (exec (UpdateField k v) w)) = _db w.
Proof.
  unfold exec, bind, ret.
  pose proof (update_field_db k v w) as Hw.
  destruct (update_field k v w) as [[o|e] w']; simpl in *; congruence.
Qed.

(** A call that is neither [clear_db] nor a create call drawing [k] leaves
    the entry of [k] as it is. *)
Lemma exec_db_kept c w k :
  overwrites k c = false -> _db (snd (exec c w)) !! k = _db w !! k.
Proof.
  intros Hc. destruct c; try discriminate Hc.
  - simpl in Hc. apply bool_decide_eq_false in Hc.
    simpl. apply lookup_insert_ne. congruence.
  - reflexivity.
  - reflexivity.
  - by rewrite exec_get_field_world.
  - by rewrite exec_update_field_db.
Qed.

(** A create call drawing [k] stores a new object under [k] and returns
    it. *)
Lemma exec_create_draw c w k :
  draw c = Some k ->
  fst (exec c w) = Return (PyGem (length (heap w))) /\
  _db (snd (exec c w)) = <[k := length (heap w)]> (_db w) /\
  exists g, heap (snd (exec c w)) = (heap w ++ [g])%list /\ gem_id g = k.
Proof.
  destruct c; try discriminate. simpl. intros [= <-].
  split; [reflexivity|]. split; [reflexivity|]. eauto.
Qed.

Lemma exec_clear_db w : _db (snd (exec ClearDb w)) = ∅.
Proof. reflexivity. Qed.

Lemma overwrites_cases k c :
  overwrites k c = true -> c = ClearDb \/ draw c = Some k.
Proof.
  destruct c; simpl; intros H; try discriminate H; auto.
  apply bool_decide_eq_true in H; auto.
Qed.

Lemma run_cons c cs w :
  run (c :: cs) w =
  (fst (exec c w) :: fst (run cs (snd (exec c w))),
   snd (run cs (snd (exec c w)))).
Proof.
  simpl. destruct (exec c w) as [out w']. simpl.
  by destruct (run cs w') as [outs w''].
Qed.

Lemma run_app cs1 cs2 w :
  run (cs1 ++ cs2) w =
  (fst (run cs1 w) ++ fst (run cs2 (snd (run cs1 w))),
   snd (run cs2 (snd (run cs1 w)))).
Proof.
  revert w. induction cs1 as [|c cs1 IH]; intros w.
  - simpl. by destruct (run cs2 w).
  - rewrite <- app_comm_cons, !run_cons, IH. reflexivity.
Qed.

Lemma reachable_init : reachable init.
Proof. by exists []. Qed.

Lemma reachable_exec c w : reachable w -> reachable (snd (exec c w)).
Proof.
  intros [cs <-]. exists (cs ++ [c]).
  rewrite run_app, run_cons. reflexivity.
Qed.

(** Induction over the worlds a repository can reach. *)
Lemma reachable_ind (P : World -> Prop) :
  P init ->
  (forall c w, P w -> P (snd (exec c w))) ->
  forall w, reachable w -> P w.
Proof.
  intros Hinit Hstep w [cs <-].
  induction cs as [|c cs IH] using rev_ind; [exact Hinit|].
  rewrite run_app, run_cons. simpl. by apply Hstep.
Qed.

Lemma wf_world_init : wf_world init.
Proof. intros k r Hk. simpl in Hk. by rewrite lookup_empty in Hk. Qed.

Lemma wf_world_exec c w : wf_world w -> wf_world (snd (exec c w)).
Proof.
  intros Hwf. destruct c.
  - intros k r. simpl. rewrite lookup_insert. case_decide as Hd.
    + intros [= <-]. eexists. split; [apply list_lookup_middle; done|].
      simpl. done.
    + intros Hk. destruct (Hwf k r Hk) as (g & Hg & Hid).
      exists g. split; [|done]. by apply lookup_app_l_Some.
  - exact Hwf.
  - exact Hwf.
  - by rewrite exec_get_field_world.
  - intros k r. rewrite exec_update_field_db. intros Hk.
    destruct (Hwf k r Hk) as (g & Hg & Hid).
    unfold exec, bind, ret.
    destruct (_db w !! hidden_gem_id) as [r'|] eqn:Hk'.
    + destruct (Hwf _ _ Hk') as (g' & Hg' & Hid').
      rewrite (update_field_present _ v w r' g' Hk' Hg'). simpl.
      destruct (decide (r' = r)) as [->|Hne].
      * exists (write_field v g'). split.
        -- apply list_lookup_insert_eq. by eapply lookup_lt_Some.
        -- assert (g' = g) as -> by congruence.
           rewrite <- Hid. by destruct v.
      * exists g. split; [|done]. by rewrite list_lookup_insert_ne.
    + rewrite (update_field_absent _ v w Hk'). simpl. eauto.
  - intros k r. rewrite exec_clear_db, lookup_empty. done.
Qed.

Lemma reachable_wf w : reachable w -> wf_world w.
Proof.
  apply reachable_ind; [apply wf_world_init|]. intros c w'. apply wf_world_exec.
Qed.

End Calls.

(** ** Reading and writing one record *)

Section Records.

Implicit Types (w : World) (k : Z) (r : ref) (g : HiddenGem).
Implicit Types (f : field) (v : field_value).

Lemma stored_Some w k g :
  stored w k = Some g <->
  exists r, _db w !! k = Some r /\ heap w !! r = Some g.
Proof.
  unfold stored. destruct (_db w !! k) as [r|]; simpl.
  - split; [eauto|]. by intros (r' & [= <-] & Hg).
  - split; [done|]. by intros (r' & ? & _).
Qed.

(** In a reachable world every key of the store has its record. *)
Lemma reachable_live_stored w k :
  reachable w -> is_Some (_db w !! k) -> is_Some (stored w k).
Proof.
  intros Hw [r Hr]. destruct (reachable_wf w Hw k r Hr) as (g & Hg & _).
  exists g. apply stored_Some. eauto.
Qed.

Lemma read_write_same v g : read_field (field_of v) (write_field v g) = v.
Proof. by destruct v. Qed.

Lemma read_write_other f v g :
  f <> field_of v -> read_field f (write_field v g) = read_field f g.
Proof. destruct f, v; simpl; intros Hne; congruence. Qed.

Lemma gem_id_write_field v g : gem_id (write_field v g) = gem_id g.
Proof. by destruct v. Qed.

End Records.

(** C6.  Whatever the arguments, the world and the draw, [create_hidden_gem]
    returns a record, and [get_hidden_gem_by_id] on the identifier of that
    record returns the very same record, whose name, latitude, longitude,
    category, visit count, creator, website link, accessibility, images
    and reviews are the arguments of the create call. *)
Theorem create_then_get_by_id
    (entropy : Z) (n : string) (la lo : pyfloat) (ty : string) (tv : Z)
    (uc wl : string) (ac : list bool) (im : list string)
    (rv : list Reviews) (w : World) :
  exists (r : ref) (w' : World) (g : HiddenGem),
    create_hidden_gem entropy n la lo ty tv uc wl ac im rv w = (Return r, w')
    /\ heap w' !! r = Some g
    /\ get_hidden_gem_by_id (gem_id g) w' = (Return (Some r), w')
    /\ stored w' (gem_id g) = Some g
    /\ name g = n /\ latitude g = la /\ longitude g = lo
    /\ gem_type g = ty /\ times_visited g = tv /\ user_created g = uc
    /\ website_link g = wl /\ accessibility g = ac /\ gem_images g = im
    /\ reviews g = rv.
Proof.
  set (g := mkHiddenGem n (randint 0 100000 entropy) la lo ty tv uc wl ac
              im rv).
  exists (length (heap w)),
    (mkWorld (heap w ++ [g]) (<[gem_id g := length (heap w)]> (_db w))), g.
  assert (Hg : (heap w ++ [g]) !! length (heap w) = Some g)
    by (by apply list_lookup_middle).
  split; [reflexivity|]. split; [exact Hg|]. split.
  - unfold get_hidden_gem_by_id, db_get. simpl. by rewrite lookup_insert_eq.
  - split; [|by repeat split].
    apply stored_Some. exists (length (heap w)). simpl.
    by rewrite lookup_insert_eq.
Qed.

(** C7.  [get_hidden_gem_by_id(id)] returns what the store holds under
    [id]: the record when there is one, [None] when there is none.  It
    raises nothing and leaves the world as it is; on the empty store
    [get_hidden_gem_by_id(999999)] returns [None]. *)
Theorem get_hidden_gem_by_id_never_raises (w : World) (k : Z) :
  get_hidden_gem_by_id k w = (Return (_db w !! k), w)
  /\ match _db w !! k with
     | Some r => fst (get_hidden_gem_by_id k w) = Return (Some r)
     | None => fst (get_hidden_gem_by_id k w) = Return None
     end
  /\ (forall e : exn, fst (get_hidden_gem_by_id k w) <> Raise e)
  /\ get_hidden_gem_by_id 999999 init = (Return None, init).
Proof.
  split; [reflexivity|]. split; [|split].
  - unfold get_hidden_gem_by_id, db_get. simpl. by destruct (_db w !! k).
  - intros e. discriminate.
  - reflexivity.
Qed.

(** C5.  When [k] is live, [update_<f>(k, v)] succeeds and returns the
    record; afterwards [get_<f>(k)] returns [v], every other getter returns
    for [k] what it returned before, the identifier of the record and the
    keys of the store are unchanged. *)
Theorem update_then_get (w : World) (k : Z) (v : field_value)
    (g : HiddenGem) :
  stored w k = Some g ->
  exists w' : World,
    update_field k v w = (Return (_db w !! k), w')
    /\ get_field (field_of v) k w' = (Return v, w')
    /\ (forall f : field,
          f <> field_of v ->
          get_field f k w' = (Return (read_field f g), w')
          /\ get_field f k w = (Return (read_field f g), w))
    /\ stored w' k = Some (write_field v g)
    /\ gem_id (write_field v g) = gem_id g
    /\ _db w' = _db w.
Proof.
  intros Hst. apply stored_Some in Hst as (r & Hk & Hr).
  exists (mkWorld (<[r := write_field v g]> (heap w)) (_db w)).
  assert (Hr' : <[r := write_field v g]> (heap w) !! r
                = Some (write_field v g)).
  { apply list_lookup_insert_eq. by eapply lookup_lt_Some. }
  split; [rewrite Hk; by apply update_field_present|].
  split.
  { rewrite (get_field_present _ k _ r (write_field v g)) by done.
    by rewrite read_write_same. }
  split.
  { intros f Hf. split.
    - rewrite (get_field_present _ k _ r (write_field v g)) by done.
      by rewrite read_write_other.
    - by apply get_field_present with r. }
  split; [apply stored_Some; eauto|].
  split; [apply gem_id_write_field|reflexivity].
Qed.

Lemma update_then_get_witness :
  exists w' : World,
    update_field 7 (VName "Old Windmill") one_gem
    = (Return (_db one_gem !! 7), w')
    /\ get_field FName 7 w' = (Return (VName "Old Windmill"), w')
    /\ (forall f : field,
          f <> FName ->
          get_field f 7 w' = (Return (read_field f (old_mill_gem 7)), w')
          /\ get_field f 7 one_gem
             = (Return (read_field f (old_mill_gem 7)), one_gem))
    /\ stored w' 7
       = Some (write_field (VName "Old Windmill") (old_mill_gem 7))
    /\ gem_id (write_field (VName "Old Windmill") (old_mill_gem 7))
       = gem_id (old_mill_gem 7)
    /\ _db w' = _db one_gem.
Proof.
  apply (update_then_get one_gem 7 (VName "Old Windmill") (old_mill_gem 7)).
  reflexivity.
Defined.

(** The scenario of the specification: after the create call,
    [update_name] to "Old Windmill" makes [get_name] return that name, and
    the latitude read back is still 51.5. *)
Example old_mill_scenario :
  fst (run [old_mill 7;
            UpdateField 7 (VName "Old Windmill");
            GetField FName 7;
            GetHiddenGemById 7] init)
  = [Return (PyGem 0%nat);
     Return (PyGemOrNone (Some 0%nat));
     Return (PyField (VName "Old Windmill"));
     Return (PyGemOrNone (Some 0%nat))]
  /\ latitude <$> stored (snd (run [old_mill 7;
                                    UpdateField 7 (VName "Old Windmill")]
                                init)) 7
     = Some 51.5%float.
Proof. split; reflexivity. Qed.

(** C8.  When [k] is not live, [update_<f>(k, v)] raises, the world after
    the failed call is the world before it, and nothing is stored under
    [k]. *)
Theorem update_absent_changes_nothing (w : World) (k : Z)
    (v : field_value) :
  _db w !! k = None ->
  (exists e : exn, fst (update_field k v w) = Raise e)
  /\ snd (update_field k v w) = w
  /\ snd (exec (UpdateField k v) w) = w
  /\ _db (snd (update_field k v w)) !! k = None.
Proof.
  intros Hk. rewrite (update_field_absent k v w Hk).
  split; [eauto|]. split; [reflexivity|]. split; [|exact Hk].
  unfold exec, bind. by rewrite (update_field_absent k v w Hk).
Qed.

Lemma update_absent_changes_nothing_witness :
  (exists e : exn,
     fst (update_field 5 (VTimesVisited 3) one_gem) = Raise e)
  /\ snd (update_field 5 (VTimesVisited 3) one_gem) = one_gem
  /\ snd (exec (UpdateField 5 (VTimesVisited 3)) one_gem) = one_gem
  /\ _db (snd (update_field 5 (VTimesVisited 3) one_gem)) !! 5 = None.
Proof.
  apply (update_absent_changes_nothing one_gem 5 (VTimesVisited 3)).
  reflexivity.
Defined.

(** C2, as the code has it.  When [k] is not live, every
    [update_<f>(k, v)] raises the built-in [ValueError] whose message is
    [hidden gem with id <k> not found]. *)
Theorem update_absent_raises_ValueError (w : World) (k : Z)
    (v : field_value) :
  _db w !! k = None ->
  fst (update_field k v w)
  = Raise (ValueError ("hidden gem with id " ++ str k ++ " not found")%string)
  /\ isinstance (not_found k) "ValueError" = true
  /\ isinstance (not_found k) "NotFoundError" = false.
Proof.
  intros Hk. rewrite (update_field_absent k v w Hk). by repeat split.
Qed.

Lemma update_absent_raises_ValueError_witness :
  fst (update_field 5 (VName "Old Windmill") init)
  = Raise (ValueError ("hidden gem with id " ++ str 5 ++ " not found")%string)
  /\ isinstance (not_found 5) "ValueError" = true
  /\ isinstance (not_found 5) "NotFoundError" = false.
Proof.
  apply (update_absent_raises_ValueError init 5 (VName "Old Windmill")).
  reflexivity.
Defined.

(** C2 fails as stated: on the empty store [update_name(5, ...)] raises a
    [ValueError] and [get_name(5)] an [AttributeError]; neither is a
    [NotFoundError]. *)
Lemma not_found_is_not_NotFoundError :
  fst (update_name 5 "Old Windmill" init)
  = Raise (ValueError "hidden gem with id 5 not found")
  /\ fst (get_name 5 init)
     = Raise (AttributeError "'NoneType' object has no attribute 'name'")
  /\ ~ (exists e : exn,
          fst (update_field 5 (VName "Old Windmill") init) = Raise e
          /\ exc_type e = "NotFoundError")
  /\ ~ (exists e : exn,
          fst (get_field FName 5 init) = Raise e
          /\ exc_type e = "NotFoundError").
Proof.
  split; [reflexivity|]. split; [reflexivity|].
  split; intros (e & He & Hty); injection He as <-; discriminate Hty.
Qed.

(** ** The accessor of the module *)

(** C9.  Whatever the module's globals hold, a call of
    [get_gem_repository] raises [UnboundLocalError], a subclass of
    [NameError], at its first read of [_user_repo]; it returns nothing and
    leaves the globals as they were.  This holds in particular for the
    globals of the freshly imported module. *)
Theorem get_gem_repository_always_raises (globals : Entry.namespace) :
  (exists msg : string,
     Entry.get_gem_repository globals = (Raise (UnboundLocalError msg), globals)
     /\ isinstance (UnboundLocalError msg) "NameError" = true)
  /\ (forall v : Entry.binding,
        fst (Entry.get_gem_repository globals) <> Return v)
  /\ (exists e : exn,
        fst (Entry.get_gem_repository Entry.module_globals) = Raise e
        /\ isinstance e "NameError" = true).
Proof.
  assert (H : Entry.get_gem_repository globals
              = (Raise (UnboundLocalError
                          ("cannot access local variable '_user_repo' "
                           +:+ "where it is not associated with a value")),
                 globals)) by reflexivity.
  split; [eexists; split; [exact H|reflexivity]|].
  split; [intros v; rewrite H; discriminate|].
  eexists. split; reflexivity.
Qed.

(** ** The range of the identifiers *)

Section Range.

Implicit Types (w : World) (k : Z) (c : call).

Lemma ids_in_range_init : ids_in_range init.
Proof. intros k [r Hr]. simpl in Hr. by rewrite lookup_empty in Hr. Qed.

Lemma ids_in_range_exec c w :
  ids_in_range w -> ids_in_range (snd (exec c w)).
Proof.
  intros Hw k Hk.
  destruct (overwrites k c) eqn:Hov.
  - apply overwrites_cases in Hov as [->|Hd].
    + rewrite exec_clear_db, lookup_empty in Hk. by destruct Hk.
    + destruct c; try discriminate Hd. simpl in Hd. injection Hd as <-.
      by apply randint_range.
  - rewrite exec_db_kept in Hk by done. by apply Hw.
Qed.

(** A store whose keys are in the range holds at most 100001 records. *)
Lemma ids_in_range_size w :
  ids_in_range w -> Z.of_nat (size (_db w)) <= 100001.
Proof.
  intros Hw.
  assert (Hsub : dom (_db w) ⊆ list_to_set (C := gset Z) (seqZ 0 100001)).
  { intros k Hk. apply elem_of_dom in Hk.
    apply elem_of_list_to_set, elem_of_seqZ.
    specialize (Hw k Hk). lia. }
  apply subseteq_size in Hsub.
  rewrite size_dom, size_list_to_set, length_seqZ in Hsub
    by apply NoDup_seqZ.
  lia.
Qed.

End Range.

(** C10.  In every world the repository can reach, every key of the store
    is an integer from 0 to 100000, and the store holds at most 100001
    records. *)
Theorem reachable_ids_in_range (w : World) :
  reachable w ->
  (forall k : Z, is_Some (_db w !! k) -> 0 <= k <= 100000)
  /\ Z.of_nat (size (_db w)) <= 100001.
Proof.
  intros Hw.
  assert (Hr : ids_in_range w).
  { revert w Hw. apply reachable_ind.
    - apply ids_in_range_init.
    - intros c w. apply ids_in_range_exec. }
  split; [exact Hr|by apply ids_in_range_size].
Qed.

Lemma reachable_ids_in_range_witness :
  (forall k : Z, is_Some (_db one_gem !! k) -> 0 <= k <= 100000)
  /\ Z.of_nat (size (_db one_gem)) <= 100001.
Proof.
  apply (reachable_ids_in_range one_gem).
  exists [old_mill 7]. reflexivity.
Defined.

(** ** Sequences of create calls *)

Section Creates.

Implicit Types (w : World) (k : Z) (c : call) (cs : list call).

Lemma draws_cons_create c cs k :
  draw c = Some k -> draws (c :: cs) = k :: draws cs.
Proof. intros Hd. unfold draws. simpl. by rewrite Hd. Qed.

Lemma is_create_draw c : is_create c = true -> exists k, draw c = Some k.
Proof. destruct c; try discriminate. simpl. eauto. Qed.

Lemma draws_length cs :
  forallb is_create cs = true -> length (draws cs) = length cs.
Proof.
  induction cs as [|c cs IH]; [done|]. simpl forallb.
  intros [Hc Hcs]%andb_prop. destruct (is_create_draw c Hc) as [k Hk].
  rewrite (draws_cons_create c cs k Hk). simpl length. by rewrite IH.
Qed.

(** Without [clear_db], the keys of the store are the keys it had plus
    the draws. *)
Lemma run_creates_dom cs w :
  forallb is_create cs = true ->
  dom (_db (snd (run cs w))) = dom (_db w) ∪ list_to_set (draws cs).
Proof.
  revert w. induction cs as [|c cs IH]; intros w.
  - intros _. unfold draws. simpl. by rewrite union_empty_r_L.
  - simpl forallb. intros [Hc Hcs]%andb_prop.
    destruct (is_create_draw c Hc) as [k Hk].
    rewrite run_cons, (draws_cons_create c cs k Hk). simpl snd.
    rewrite (IH _ Hcs).
    destruct (exec_create_draw c w k Hk) as (_ & -> & _).
    rewrite dom_insert_L, list_to_set_cons.
    rewrite !assoc_L by apply _. f_equal. apply comm_L, _.
Qed.

Lemma size_list_to_set_le (l : list Z) :
  (size (list_to_set (C := gset Z) l) <= length l)%nat.
Proof.
  induction l as [|x l IH].
  - by rewrite list_to_set_nil, size_empty.
  - rewrite list_to_set_cons, size_union_alt, size_singleton. simpl length.
    pose proof (subseteq_size (list_to_set l ∖ {[x]})
                  (list_to_set (C := gset Z) l)) as Hle.
    specialize (Hle (subseteq_difference_l _ _ _ (reflexivity _))). lia.
Qed.

Lemma count_all_size w : count_all w = Some (size (_db w)).
Proof. reflexivity. Qed.

Lemma fresh_ids_cons_create c cs w k :
  draw c = Some k ->
  fresh_ids (c :: cs) w
  = bool_decide (_db w !! k = None) && fresh_ids cs (snd (exec c w)).
Proof.
  intros Hk. destruct c; try discriminate Hk.
  simpl in Hk. injection Hk as <-.
  cbn [fresh_ids]. unfold exec at 1.
  unfold create_hidden_gem, bind, ret, new, db_setitem. cbn [is_create].
  unfold issued_id. cbn [heap]. rewrite list_lookup_middle by done.
  reflexivity.
Qed.

End Creates.

(** ** Which records the store holds *)

Section History.

Implicit Types (w : World) (k : Z) (r : ref) (c : call) (cs : list call).
Implicit Types (out : result value) (outs : list (result value)).

Lemma created_at_head c cs out outs k r :
  created_at (c :: cs) (out :: outs) 0 k r <->
  draw c = Some k /\ out = Return (PyGem r).
Proof.
  unfold created_at. simpl. split.
  - intros (c' & [= <-] & Hd & [= <-]). done.
  - intros [Hd ->]. eauto.
Qed.

Lemma created_at_tail c cs out outs i k r :
  created_at (c :: cs) (out :: outs) (S i) k r <-> created_at cs outs i k r.
Proof. reflexivity. Qed.

Lemma created_at_nil outs i k r : ~ created_at [] outs i k r.
Proof. by intros (c & Hc & _). Qed.

Lemma draw_overwrites c k : draw c = Some k -> overwrites k c = true.
Proof.
  destruct c; try discriminate. simpl. intros Hd.
  by apply bool_decide_eq_true.
Qed.

(** What is stored under [k] after [cs]: what was there before, when no
    call of [cs] took it away, or else what the last create call drawing
    [k] stored, when no later call took that away. *)
Lemma run_db_lookup cs w k r :
  _db (snd (run cs w)) !! k = Some r <->
  (kept k cs = true /\ _db w !! k = Some r)
  \/ (exists i, created_at cs (fst (run cs w)) i k r
                /\ kept k (drop (S i) cs) = true).
Proof.
  revert w. induction cs as [|c cs IH]; intros w.
  - simpl. split; [by left|].
    intros [[_ H]|(i & H & _)]; [done|]. by apply created_at_nil in H.
  - rewrite run_cons. cbn [fst snd]. rewrite IH. clear IH.
    set (w' := snd (exec c w)). set (outs := fst (run cs w')).
    change (kept k (c :: cs)) with (negb (overwrites k c) && kept k cs).
    destruct (overwrites k c) eqn:Hov; cbn [negb andb].
    + (* the call takes away what was stored under [k] *)
      assert (Hstep : forall i, created_at (c :: cs) (fst (exec c w) :: outs)
                                  (S i) k r
                                /\ kept k (drop (S (S i)) (c :: cs)) = true
                                <-> created_at cs outs i k r
                                    /\ kept k (drop (S i) cs) = true)
        by (intros i; by rewrite created_at_tail).
      apply overwrites_cases in Hov as [->|Hd].
      * split.
        -- intros [[_ H]|(i & H)].
           ++ subst w'. by rewrite exec_clear_db, lookup_empty in H.
           ++ right. exists (S i). by apply Hstep.
        -- intros [[? _]|([|i] & H)]; [done| |].
           ++ destruct H as [H _]. apply created_at_head in H as [? _].
              done.
           ++ right. exists i. by apply Hstep.
      * destruct (exec_create_draw c w k Hd) as (Hout & Hdb & _).
        split.
        -- intros [[Hk H]|(i & H)].
           ++ right. exists 0%nat. split; [|done].
              apply created_at_head. split; [done|]. rewrite Hout.
              subst w'. rewrite Hdb, lookup_insert_eq in H. congruence.
           ++ right. exists (S i). by apply Hstep.
        -- intros [[? _]|([|i] & H)]; [done| |].
           ++ left. destruct H as [H Hk]. split; [done|].
              apply created_at_head in H as [_ H]. rewrite Hout in H.
              subst w'. rewrite Hdb, lookup_insert_eq. congruence.
           ++ right. exists i. by apply Hstep.
    + (* the call leaves the entry of [k] alone *)
      subst w'. rewrite (exec_db_kept c w k Hov).
      split.
      * intros [H|(i & H)]; [by left|]. right. exists (S i).
        by rewrite created_at_tail.
      * intros [H|([|i] & H)]; [by left| |].
        -- destruct H as [H _]. apply created_at_head in H as [Hd _].
           apply draw_overwrites in Hd. congruence.
        -- right. exists i. by rewrite created_at_tail in H.
Qed.

End History.

(** C1, as the code has it.  The identifier a create call returns is its
    draw; nothing compares the draw with the keys of the store.  In a
    sequence of create calls every returned identifier is new to the store
    exactly when the draws are pairwise distinct and none of them was a
    key of the store at the start. *)
Theorem create_ids_fresh_iff_draws_distinct (cs : list call) (w : World) :
  forallb is_create cs = true ->
  fresh_ids cs w = true <->
  NoDup (draws cs) /\ (forall k : Z, k ∈ draws cs -> _db w !! k = None).
Proof.
  revert w. induction cs as [|c cs IH]; intros w.
  - intros _. simpl. split; [|done]. intros _. split; [constructor|].
    intros k Hk. by apply elem_of_nil in Hk.
  - simpl forallb. intros [Hc Hcs]%andb_prop.
    destruct (is_create_draw c Hc) as [k Hk].
    rewrite (fresh_ids_cons_create c cs w k Hk),
      (draws_cons_create c cs k Hk).
    rewrite andb_true_iff, bool_decide_eq_true, (IH _ Hcs), NoDup_cons.
    destruct (exec_create_draw c w k Hk) as (_ & -> & _).
    split.
    + intros (Hfree & Hnd & Hcs').
      split; [split; [|done]|].
      * intros Hin. specialize (Hcs' k Hin).
        by rewrite lookup_insert_eq in Hcs'.
      * intros k' [->|Hin]%elem_of_cons; [done|].
        specialize (Hcs' k' Hin).
        by apply lookup_insert_None in Hcs' as [? _].
    + intros ([Hnin Hnd] & Hfree).
      split; [apply Hfree; left|]. split; [done|].
      intros k' Hin. apply lookup_insert_None. split.
      * apply Hfree. by right.
      * intros ->. by apply Hnin.
Qed.

Lemma create_ids_fresh_iff_draws_distinct_witness :
  fresh_ids [old_mill 7; old_mill 8] init = true <->
  NoDup (draws [old_mill 7; old_mill 8])
  /\ (forall k : Z, k ∈ draws [old_mill 7; old_mill 8] ->
                    _db init !! k = None).
Proof.
  apply (create_ids_fresh_iff_draws_distinct [old_mill 7; old_mill 8] init).
  reflexivity.
Defined.

(** C1 fails as stated: two create calls that both draw 7 both return the
    identifier 7, and the second one returns it while it is live. *)
Lemma create_reissues_live_id :
  forallb is_create [old_mill 7; old_mill 7] = true
  /\ fresh_ids [old_mill 7; old_mill 7] init = false
  /\ issued_id (fst (exec (old_mill 7) init)) (snd (exec (old_mill 7) init))
     = Some 7
  /\ _db (snd (exec (old_mill 7) init)) !! 7 = Some 0%nat
  /\ issued_id (fst (exec (old_mill 7) (snd (exec (old_mill 7) init))))
       (snd (exec (old_mill 7) (snd (exec (old_mill 7) init))))
     = Some 7.
Proof. repeat split; vm_compute; reflexivity. Qed.

(** C3, as the code has it.  After [n] create calls and no [clear_db] on a
    new repository, [get_all_hidden_gems] returns one entry per distinct
    draw: at most [n] entries, and exactly [n] when the draws are pairwise
    distinct.  After [clear_db] it returns no entry. *)
Theorem count_after_creates (cs : list call) :
  forallb is_create cs = true ->
  count_all (snd (run cs init))
  = Some (size (list_to_set (C := gset Z) (draws cs)))
  /\ (size (_db (snd (run cs init))) <= length cs)%nat
  /\ (NoDup (draws cs) -> count_all (snd (run cs init)) = Some (length cs))
  /\ (forall w : World, count_all (snd (clear_db w)) = Some 0%nat).
Proof.
  intros Hcs.
  assert (Hsz : size (_db (snd (run cs init)))
                = size (list_to_set (C := gset Z) (draws cs))).
  { rewrite <- (size_dom (D := gset Z)), (run_creates_dom cs init Hcs).
    simpl. by rewrite dom_empty_L, union_empty_l_L. }
  rewrite count_all_size, Hsz.
  split; [reflexivity|]. split; [|split].
  - rewrite <- (draws_length cs Hcs). apply size_list_to_set_le.
  - intros Hnd. by rewrite size_list_to_set, draws_length.
  - intros w. rewrite count_all_size. simpl. by rewrite map_size_empty.
Qed.

Lemma count_after_creates_witness :
  count_all (snd (run [old_mill 7; old_mill 8] init))
  = Some (size (list_to_set (C := gset Z) (draws [old_mill 7; old_mill 8])))
  /\ (size (_db (snd (run [old_mill 7; old_mill 8] init)))
      <= length [old_mill 7; old_mill 8])%nat
  /\ (NoDup (draws [old_mill 7; old_mill 8]) ->
      count_all (snd (run [old_mill 7; old_mill 8] init))
      = Some (length [old_mill 7; old_mill 8]))
  /\ (forall w : World, count_all (snd (clear_db w)) = Some 0%nat).
Proof.
  apply (count_after_creates [old_mill 7; old_mill 8]). reflexivity.
Defined.

(** C3 fails as stated: after two create calls that both draw 7,
    [get_all_hidden_gems] returns one entry, not two. *)
Lemma two_creates_one_entry :
  forallb is_create [old_mill 7; old_mill 7] = true
  /\ length [old_mill 7; old_mill 7] = 2%nat
  /\ count_all (snd (run [old_mill 7; old_mill 7] init)) = Some 1%nat.
Proof. repeat split; vm_compute; reflexivity. Qed.

(** C4, as the code has it.  After any sequence of calls on a new
    repository, the store holds the record [r] under [k] exactly when a
    create call returned [r] under [k] and neither [clear_db] nor a create
    call drawing [k] again came after it.  A call that is neither of the
    two leaves what is stored under [k]: no getter and no updater removes
    or replaces a record. *)
Theorem stored_iff_created_and_kept (cs : list call) (k : Z) (r : ref) :
  (_db (snd (run cs init)) !! k = Some r <->
   exists i : nat,
     created_at cs (fst (run cs init)) i k r
     /\ kept k (drop (S i) cs) = true)
  /\ (forall (c : call) (w : World),
        overwrites k c = false ->
        _db (snd (exec c w)) !! k = _db w !! k).
Proof.
  split; [|intros c w; apply exec_db_kept].
  rewrite run_db_lookup. split; [|by right].
  intros [[_ H]|H]; [|done]. simpl in H. by rewrite lookup_empty in H.
Qed.

(** C4 fails as stated: the first of two create calls drawing 7 returned
    the record 0 and no [clear_db] followed, yet the store no longer holds
    that record: the second create call replaced it by the record 1. *)
Lemma create_replaces_live_record :
  created_at [old_mill 7; old_mill 7]
    (fst (run [old_mill 7; old_mill 7] init)) 0 7 0%nat
  /\ forallb (fun c => negb (is_clear c)) [old_mill 7; old_mill 7] = true
  /\ _db (snd (run [old_mill 7] init)) !! 7 = Some 0%nat
  /\ _db (snd (run [old_mill 7; old_mill 7] init)) !! 7 = Some 1%nat
  /\ (forall k : Z,
        _db (snd (run [old_mill 7; old_mill 7] init)) !! k <> Some 0%nat).
Proof.
  split; [by eexists|]. split; [reflexivity|].
  split; [reflexivity|]. split; [reflexivity|].
  intros k. change (_db (snd (run [old_mill 7; old_mill 7] init)))
    with (<[7 := 1%nat]> (<[7 := 0%nat]> (∅ : gmap Z ref))).
  rewrite !lookup_insert. repeat case_decide; discriminate.
Qed.

(** * Further properties of the methods *)

(** ** Reading *)

(** X1.  A getter called with an identifier that is not a key of the store
    raises [AttributeError] for the first attribute it reads on [None]
    ([latitude] for [get_cordinates]) and changes nothing.  The exception is
    not a [ValueError], so a handler for the updaters' error does not catch
    it. *)
Theorem getter_absent_raises_AttributeError (w : World) (k : Z)
    (f : field) :
  _db w !! k = None ->
  exists e : exn,
    get_field f k w = (Raise e, w)
    /\ e = AttributeError
             ("'NoneType' object has no attribute '" ++ first_attr f ++ "'")%string
    /\ isinstance e "AttributeError" = true
    /\ isinstance e "ValueError" = false.
Proof.
  intros Hk. eexists. split; [by apply get_field_absent|].
  split; [reflexivity|]. split; reflexivity.
Qed.

Lemma getter_absent_raises_AttributeError_witness :
  exists e : exn,
    get_field FCordinates 5 one_gem = (Raise e, one_gem)
    /\ e = AttributeError
             ("'NoneType' object has no attribute '"
              ++ first_attr FCordinates ++ "'")%string
    /\ isinstance e "AttributeError" = true
    /\ isinstance e "ValueError" = false.
Proof.
  apply (getter_absent_raises_AttributeError one_gem 5 FCordinates).
  reflexivity.
Defined.

(** X2.  The reading methods ([get_all_hidden_gems],
    [get_hidden_gem_by_id] and the nine getters) leave the store and every
    record as they are, whether they return or raise. *)
Theorem reads_change_nothing (c : call) (w : World) :
  is_read c = true -> snd (exec c w) = w.
Proof.
  destruct c; try discriminate; intros _.
  - reflexivity.
  - reflexivity.
  - apply exec_get_field_world.
Qed.

Lemma reads_change_nothing_witness :
  snd (exec (GetField FReviews 5) one_gem) = one_gem.
Proof.
  apply (reads_change_nothing (GetField FReviews 5) one_gem). reflexivity.
Defined.

(** ** The store and its records *)

(** X3.  In every world the repository can reach, the record stored under
    a key carries that key as its identifier, and two keys never share a
    record. *)
Theorem stored_under_own_id (w : World) :
  reachable w ->
  (forall (k : Z) (r : ref),
     _db w !! k = Some r ->
     exists g : HiddenGem, heap w !! r = Some g /\ gem_id g = k)
  /\ (forall (k1 k2 : Z) (r : ref),
        _db w !! k1 = Some r -> _db w !! k2 = Some r -> k1 = k2).
Proof.
  intros Hw. pose proof (reachable_wf w Hw) as Hwf.
  split; [exact Hwf|].
  intros k1 k2 r H1 H2.
  destruct (Hwf k1 r H1) as (g1 & Hg1 & <-).
  destruct (Hwf k2 r H2) as (g2 & Hg2 & <-).
  congruence.
Qed.

Lemma stored_under_own_id_witness :
  (forall (k : Z) (r : ref),
     _db one_gem !! k = Some r ->
     exists g : HiddenGem, heap one_gem !! r = Some g /\ gem_id g = k)
  /\ (forall (k1 k2 : Z) (r : ref),
        _db one_gem !! k1 = Some r -> _db one_gem !! k2 = Some r -> k1 = k2).
Proof.
  apply (stored_under_own_id one_gem). exists [old_mill 7]. reflexivity.
Defined.

(** X4.  In every world the repository can reach, a getter returns exactly
    when its identifier is a key of the store, and so does an updater:
    a key of the store never leads to an exception. *)
Theorem access_succeeds_iff_live (w : World) (k : Z) (f : field)
    (v : field_value) :
  reachable w ->
  (is_Some (_db w !! k) <-> exists x, fst (get_field f k w) = Return x)
  /\ (is_Some (_db w !! k) <-> exists o, fst (update_field k v w) = Return o).
Proof.
  intros Hw. pose proof (reachable_wf w Hw) as Hwf.
  destruct (_db w !! k) as [r|] eqn:Hk.
  - destruct (Hwf k r Hk) as (g & Hg & _).
    rewrite (get_field_present f k w r g Hk Hg),
      (update_field_present k v w r g Hk Hg).
    split; (split; [eauto|intros _; eauto]).
  - rewrite (get_field_absent f k w Hk), (update_field_absent k v w Hk).
    split; (split; [by intros [? ?]|by intros [? ?]]).
Qed.

Lemma access_succeeds_iff_live_witness :
  (is_Some (_db one_gem !! 7) <->
   exists x, fst (get_field FGemType 7 one_gem) = Return x)
  /\ (is_Some (_db one_gem !! 7) <->
      exists o, fst (update_field 7 (VTimesVisited 1) one_gem) = Return o).
Proof.
  apply (access_succeeds_iff_live one_gem 7 FGemType (VTimesVisited 1)).
  exists [old_mill 7]. reflexivity.
Defined.

(** X5.  In every world the repository can reach, an updater called with
    [k] leaves the record of every other identifier as it is. *)
Theorem update_leaves_other_records (w : World) (k k' : Z)
    (v : field_value) :
  reachable w -> k' <> k ->
  stored (snd (update_field k v w)) k' = stored w k'.
Proof.
  intros Hw Hne. pose proof (reachable_wf w Hw) as Hwf.
  destruct (_db w !! k) as [r|] eqn:Hk.
  - destruct (Hwf k r Hk) as (g & Hg & Hid).
    rewrite (update_field_present k v w r g Hk Hg). unfold stored. simpl.
    destruct (_db w !! k') as [r'|] eqn:Hk'; [simpl|done].
    apply list_lookup_insert_ne. intros ->.
    destruct (Hwf k' r' Hk') as (g' & Hg' & Hid'). congruence.
  - by rewrite (update_field_absent k v w Hk).
Qed.

Lemma update_leaves_other_records_witness :
  stored (snd (update_field 8 (VName "Old Windmill")
                 (snd (run [old_mill 7; old_mill 8] init)))) 7
  = stored (snd (run [old_mill 7; old_mill 8] init)) 7.
Proof.
  apply (update_leaves_other_records
           (snd (run [old_mill 7; old_mill 8] init)) 8 7
           (VName "Old Windmill")).
  - exists [old_mill 7; old_mill 8]. reflexivity.
  - discriminate.
Defined.

(** ** Creating and clearing *)

(** X6.  A create call whose draw [k] is free adds one entry; one whose
    draw is a key of the store keeps the number of entries and puts a new
    object in the place of the stored one.  Either way the entries of the
    other identifiers and every object that existed before are as they
    were: a replaced record stays intact for whoever holds it. *)
Theorem create_step (c : call) (w : World) (k : Z) :
  draw c = Some k ->
  _db (snd (exec c w)) !! k = Some (length (heap w))
  /\ heap w !! length (heap w) = None
  /\ (_db w !! k = None ->
      size (_db (snd (exec c w))) = S (size (_db w)))
  /\ (is_Some (_db w !! k) ->
      size (_db (snd (exec c w))) = size (_db w))
  /\ (forall k' : Z, k' <> k -> _db (snd (exec c w)) !! k' = _db w !! k')
  /\ (forall (r : ref) (g : HiddenGem),
        heap w !! r = Some g -> heap (snd (exec c w)) !! r = Some g).
Proof.
  intros Hd. destruct (exec_create_draw c w k Hd) as (_ & Hdb & g & Hh & _).
  rewrite Hdb, Hh.
  split; [apply lookup_insert_eq|].
  split; [by apply lookup_ge_None_2|].
  split; [apply map_size_insert_None|].
  split; [apply map_size_insert_Some|].
  split.
  - intros k' Hne. by apply lookup_insert_ne.
  - intros r g0 Hr. by apply lookup_app_l_Some.
Qed.

Lemma create_step_witness :
  _db (snd (exec (old_mill 7) one_gem)) !! 7 = Some (length (heap one_gem))
  /\ heap one_gem !! length (heap one_gem) = None
  /\ (_db one_gem !! 7 = None ->
      size (_db (snd (exec (old_mill 7) one_gem))) = S (size (_db one_gem)))
  /\ (is_Some (_db one_gem !! 7) ->
      size (_db (snd (exec (old_mill 7) one_gem))) = size (_db one_gem))
  /\ (forall k' : Z,
        k' <> 7 ->
        _db (snd (exec (old_mill 7) one_gem)) !! k' = _db one_gem !! k')
  /\ (forall (r : ref) (g : HiddenGem),
        heap one_gem !! r = Some g ->
        heap (snd (exec (old_mill 7) one_gem)) !! r = Some g).
Proof. apply (create_step (old_mill 7) one_gem 7). reflexivity. Defined.

(** X7.  The record a create call returns is the object the store keeps:
    an update made through the repository afterwards is seen through the
    returned reference, through [get_hidden_gem_by_id], and through a
    mapping [get_all_hidden_gems] handed out before the update. *)
Theorem created_record_is_shared (c : call) (w : World) (k : Z)
    (v : field_value) :
  draw c = Some k ->
  exists (r : ref) (g : HiddenGem) (d : gmap Z ref) (w2 : World),
    fst (exec c w) = Return (PyGem r)
    /\ heap (snd (exec c w)) !! r = Some g
    /\ get_all_hidden_gems (snd (exec c w)) = (Return d, snd (exec c w))
    /\ d !! k = Some r
    /\ update_field k v (snd (exec c w)) = (Return (Some r), w2)
    /\ get_hidden_gem_by_id k w2 = (Return (Some r), w2)
    /\ heap w2 !! r = Some (write_field v g).
Proof.
  intros Hd.
  destruct (exec_create_draw c w k Hd) as (Hout & Hdb & g & Hh & _).
  remember (snd (exec c w)) as w1 eqn:Hw1. clear Hw1.
  assert (Hk : _db w1 !! k = Some (length (heap w)))
    by (by rewrite Hdb, lookup_insert_eq).
  assert (Hg : heap w1 !! length (heap w) = Some g)
    by (rewrite Hh; by apply list_lookup_middle).
  exists (length (heap w)), g, (_db w1),
    (mkWorld (<[length (heap w) := write_field v g]> (heap w1)) (_db w1)).
  split; [exact Hout|]. split; [exact Hg|]. split; [reflexivity|].
  split; [exact Hk|]. split; [by apply update_field_present|].
  split.
  - unfold get_hidden_gem_by_id, db_get. cbn [_db]. do 2 f_equal. exact Hk.
  - cbn [heap]. apply list_lookup_insert_eq. by eapply lookup_lt_Some.
Qed.

Lemma created_record_is_shared_witness :
  exists (r : ref) (g : HiddenGem) (d : gmap Z ref) (w2 : World),
    fst (exec (old_mill 7) init) = Return (PyGem r)
    /\ heap (snd (exec (old_mill 7) init)) !! r = Some g
    /\ get_all_hidden_gems (snd (exec (old_mill 7) init))
       = (Return d, snd (exec (old_mill 7) init))
    /\ d !! 7 = Some r
    /\ update_field 7 (VName "Old Windmill") (snd (exec (old_mill 7) init))
       = (Return (Some r), w2)
    /\ get_hidden_gem_by_id 7 w2 = (Return (Some r), w2)
    /\ heap w2 !! r = Some (write_field (VName "Old Windmill") g).
Proof.
  apply (created_record_is_shared (old_mill 7) init 7
           (VName "Old Windmill")).
  reflexivity.
Defined.

(** X8.  [clear_db] returns [None] and empties the store, whatever it
    held: afterwards [get_all_hidden_gems] returns the empty mapping,
    [get_hidden_gem_by_id] returns [None] for every identifier, every
    updater raises its [ValueError] and every getter its
    [AttributeError].  The objects themselves are not touched, and
    clearing again changes nothing. *)
Theorem clear_db_forgets_everything (w : World) (k : Z) (f : field)
    (v : field_value) :
  fst (clear_db w) = Return tt
  /\ get_all_hidden_gems (snd (clear_db w)) = (Return ∅, snd (clear_db w))
  /\ fst (get_hidden_gem_by_id k (snd (clear_db w))) = Return None
  /\ fst (update_field k v (snd (clear_db w))) = Raise (not_found k)
  /\ fst (get_field f k (snd (clear_db w)))
     = Raise (AttributeError
                ("'NoneType' object has no attribute '"
                 ++ first_attr f ++ "'")%string)
  /\ heap (snd (clear_db w)) = heap w
  /\ snd (clear_db (snd (clear_db w))) = snd (clear_db w).
Proof.
  assert (Hk : _db (snd (clear_db w)) !! k = None) by apply lookup_empty.
  split; [reflexivity|]. split; [reflexivity|]. split; [reflexivity|].
  split; [by rewrite update_field_absent|].
  split; [by rewrite get_field_absent|].
  split; reflexivity.
Qed.

(** ** Updates in sequence *)

Section Writes.

Implicit Types (w : World) (k : Z) (r : ref) (g : HiddenGem).
Implicit Types (v : field_value) (c : call) (cs : list call).

Lemma write_write_same v1 v2 g :
  field_of v1 = field_of v2 ->
  write_field v2 (write_field v1 g) = write_field v2 g.
Proof. destruct v1, v2; try discriminate; reflexivity. Qed.

Lemma write_write_comm v1 v2 g :
  field_of v1 <> field_of v2 ->
  write_field v2 (write_field v1 g) = write_field v1 (write_field v2 g).
Proof. destruct v1, v2; intros Hne; try reflexivity; by destruct Hne. Qed.

(** Two updates of a live identifier, one after the other. *)
Lemma update_update k v1 v2 w r g :
  _db w !! k = Some r -> heap w !! r = Some g ->
  snd (update_field k v2 (snd (update_field k v1 w)))
  = mkWorld (<[r := write_field v2 (write_field v1 g)]> (heap w)) (_db w).
Proof.
  intros Hk Hr.
  rewrite (update_field_present k v1 w r g Hk Hr). cbn [snd].
  rewrite (update_field_present k v2 _ r (write_field v1 g)).
  - cbn [snd heap _db]. by rewrite list_insert_insert_eq.
  - exact Hk.
  - cbn [heap]. apply list_lookup_insert_eq. by eapply lookup_lt_Some.
Qed.

(** One call keeps every object where it is and keeps its identifier. *)
Lemma exec_keeps_identifier c w r g :
  heap w !! r = Some g ->
  exists g', heap (snd (exec c w)) !! r = Some g' /\ gem_id g' = gem_id g.
Proof.
  intros Hr. destruct c.
  - exists g. split; [|done]. simpl. by apply lookup_app_l_Some.
  - by exists g.
  - by exists g.
  - rewrite exec_get_field_world. by exists g.
  - unfold exec, bind, ret.
    destruct (_db w !! hidden_gem_id) as [r'|] eqn:Hk.
    + destruct (heap w !! r') as [g'|] eqn:Hr'.
      * rewrite (update_field_present _ v w r' g' Hk Hr'). cbn [snd heap].
        destruct (decide (r' = r)) as [->|Hne].
        -- exists (write_field v g'). split.
           ++ apply list_lookup_insert_eq. by eapply lookup_lt_Some.
           ++ rewrite gem_id_write_field. congruence.
        -- exists g. by rewrite list_lookup_insert_ne.
      * rewrite (update_field_dangling _ v w r' Hk Hr'). by exists g.
    + rewrite (update_field_absent _ v w Hk). by exists g.
  - by exists g.
Qed.

End Writes.

(** X9.  Two updates of a live identifier compose as assignments do: when
    both write the same field the second value wins, as if the first
    update had not been made; when they write different fields their
    order does not matter. *)
Theorem updates_compose (w : World) (k : Z) (v1 v2 : field_value)
    (g : HiddenGem) :
  stored w k = Some g ->
  (field_of v1 = field_of v2 ->
   snd (update_field k v2 (snd (update_field k v1 w)))
   = snd (update_field k v2 w))
  /\ (field_of v1 <> field_of v2 ->
      snd (update_field k v2 (snd (update_field k v1 w)))
      = snd (update_field k v1 (snd (update_field k v2 w))))
  /\ stored (snd (update_field k v2 (snd (update_field k v1 w)))) k
     = Some (write_field v2 (write_field v1 g)).
Proof.
  intros Hst. apply stored_Some in Hst as (r & Hk & Hr).
  rewrite (update_update k v1 v2 w r g Hk Hr).
  split; [|split].
  - intros Hsame. rewrite (update_field_present k v2 w r g Hk Hr).
    cbn [snd]. by rewrite write_write_same.
  - intros Hdiff. rewrite (update_update k v2 v1 w r g Hk Hr).
    by rewrite write_write_comm.
  - apply stored_Some. exists r. split; [exact Hk|]. cbn [heap].
    apply list_lookup_insert_eq. by eapply lookup_lt_Some.
Qed.

Lemma updates_compose_witness :
  (field_of (VName "Mill") = field_of (VTimesVisited 4) ->
   snd (update_field 7 (VTimesVisited 4)
          (snd (update_field 7 (VName "Mill") one_gem)))
   = snd (update_field 7 (VTimesVisited 4) one_gem))
  /\ (field_of (VName "Mill") <> field_of (VTimesVisited 4) ->
      snd (update_field 7 (VTimesVisited 4)
             (snd (update_field 7 (VName "Mill") one_gem)))
      = snd (update_field 7 (VName "Mill")
               (snd (update_field 7 (VTimesVisited 4) one_gem))))
  /\ stored (snd (update_field 7 (VTimesVisited 4)
                    (snd (update_field 7 (VName "Mill") one_gem)))) 7
     = Some (write_field (VTimesVisited 4)
               (write_field (VName "Mill") (old_mill_gem 7))).
Proof.
  apply (updates_compose one_gem 7 (VName "Mill") (VTimesVisited 4)
           (old_mill_gem 7)).
  reflexivity.
Defined.

(** X10.  No sequence of calls removes an object or changes its
    identifier: a record once handed out stays where it is, with the
    identifier it was created with, through every later create, update
    and [clear_db]. *)
Theorem record_keeps_identifier (cs : list call) (w : World) (r : ref)
    (g : HiddenGem) :
  heap w !! r = Some g ->
  exists g' : HiddenGem,
    heap (snd (run cs w)) !! r = Some g' /\ gem_id g' = gem_id g.
Proof.
  revert w g. induction cs as [|c cs IH]; intros w g Hr.
  - exists g. by split.
  - rewrite run_cons. cbn [snd].
    destruct (exec_keeps_identifier c w r g Hr) as (g1 & Hr1 & Hid1).
    destruct (IH _ g1 Hr1) as (g2 & Hr2 & Hid2).
    exists g2. split; [exact Hr2|congruence].
Qed.

Lemma record_keeps_identifier_witness :
  exists g' : HiddenGem,
    heap (snd (run [UpdateField 7 (VName "Mill"); old_mill 7; ClearDb]
                 one_gem)) !! 0%nat = Some g'
    /\ gem_id g' = gem_id (old_mill_gem 7).
Proof.
  apply (record_keeps_identifier
           [UpdateField 7 (VName "Mill"); old_mill 7; ClearDb] one_gem
           0%nat (old_mill_gem 7)).
  reflexivity.
Defined.
